(** * PALMS movement controller: a shallow embedding of
      [src/server/movement_controller.py] and its verified properties.

    Conventions of the embedding.
    - A Python [float] is an exact rational ([Q]): the properties below are
      those of the deadzone comparison and of the stepping logic, stated
      over exact arithmetic; rounding, infinities and NaN are outside the
      model.
    - A Python exception is the [Raise] case of [result].
    - [GPIO.output] and [time.sleep] are recorded, in program order, in the
      [trace] of the [World]; [logging] calls have no effect on anything a
      property observes and are left out.
    - An [Axis] object mutated in place is passed and returned explicitly
      (no two axes share a [Position]). *)

From Stdlib Require Import QArith Qabs Qround Lqa ZArith List String.
From stdpp Require Import gmap strings.
Import ListNotations.

(** ** Python results and values *)

Inductive exn : Type :=
| TypeError (msg : string)
| KeyError (key : string).

Inductive result (A : Type) : Type :=
| Ok (a : A)
| Raise (e : exn).
Arguments Ok {A} a.
Arguments Raise {A} e.

Definition result_bind {A B} (r : result A) (k : A -> result B) : result B :=
  match r with
  | Ok a => k a
  | Raise e => Raise e
  end.

(** ** Module constants (lines 13-33) *)

Definition STEP_INCREMENT : Q := (5.08 / 400)%Q.

Definition CW : Z := 1.
Definition CCW : Z := 0.

Definition STEP_X : Z := 11.
Definition DIR_X : Z := 13.
Definition STEP_Y : Z := 10.
Definition DIR_Y : Z := 12.
Definition STEP_Z : Z := 38.
Definition DIR_Z : Z := 40.
Definition STEP_A : Z := 21.
Definition DIR_A : Z := 22.
Definition STEP_B : Z := 3.
Definition DIR_B : Z := 5.
Definition SLEEP : Z := 15.

(** ** The GPIO library and the clock, as recorded events *)

Module GPIO.
Definition HIGH : Z := 1.
Definition LOW : Z := 0.

Inductive numbering : Type := BOARD | BCM.
Inductive direction : Type := OUT | IN.
End GPIO.

Inductive event : Type :=
| GPIO_setmode (mode : GPIO.numbering)
| GPIO_setup (channel : Z) (dir : GPIO.direction)
| GPIO_output (channel : Z) (level : Z)
| GPIO_cleanup
| time_sleep (secs : Q).

(** Modelled from the spec: the [data] module, the shared command source,
    which the controller imports and which is not among the sources.
    [targets] maps an axis name to its target value and [zero_cmd] is the
    one-shot zero flag; both are written by an external actor, so a loop
    iteration may start from any content. *)
Record Data : Type := mkData {
  zero_cmd : bool;
  targets : gmap string Q
}.

Record World : Type := mkWorld {
  trace : list event;
  data : Data
}.

(** ** State and exception monad of the stateful code *)

Definition M (A : Type) : Type := World -> result (A * World).

Definition ret {A} (a : A) : M A := fun w => Ok (a, w).

Definition bind {A B} (m : M A) (k : A -> M B) : M B :=
  fun w => match m w with
           | Ok (a, w') => k a w'
           | Raise e => Raise e
           end.

Definition lift {A} (r : result A) : M A :=
  fun w => match r with
           | Ok a => Ok (a, w)
           | Raise e => Raise e
           end.

(** The world once the events [evs] have followed those of [w]. *)
Definition after (w : World) (evs : list event) : World :=
  {| trace := trace w ++ evs; data := data w |}.

Definition emit (e : event) : M unit :=
  fun w => Ok (tt, after w [e]).

Declare Scope py_scope.
Delimit Scope py_scope with py.
Notation "x <- m ;; k" := (bind m (fun x => k))
  (at level 100, m at next level, right associativity) : py_scope.
Notation "m ;; k" := (bind m (fun _ => k))
  (at level 100, right associativity) : py_scope.
Open Scope py_scope.

(** [data.zero_cmd], [data.zero_cmd = v] and [data.targets[key]]. *)
Definition get_zero_cmd : M bool := fun w => Ok (zero_cmd (data w), w).

Definition set_zero_cmd (v : bool) : M unit :=
  fun w => Ok (tt, {| trace := trace w;
                      data := {| zero_cmd := v; targets := targets (data w) |} |}).

Definition get_target (key : string) : M Q :=
  fun w => match targets (data w) !! key with
           | Some v => Ok (v, w)
           | None => Raise (KeyError key)
           end.

(** ** class Position (lines 176-204) *)

Definition Qlt_bool (x y : Q) : bool :=
  (Qnum x * QDen y <? Qnum y * QDen x)%Z.

Module Position.
Record t : Type := mk { pos : Q }.

(** The values a comparison operand may be: the [other] of [__eq__] and
    [__lt__] is untyped in the source. *)
Inductive value : Type :=
| VPosition (p : t)
| VFloat (x : Q)
| VInt (n : Z)
| VBool (b : bool)
| VStr (s : string)
| VNone.

Inductive pytype : Type :=
| TPosition | TFloat | TInt | TBool | TStr | TNoneType.

Definition type (v : value) : pytype :=
  match v with
  | VPosition _ => TPosition
  | VFloat _ => TFloat
  | VInt _ => TInt
  | VBool _ => TBool
  | VStr _ => TStr
  | VNone => TNoneType
  end.

Definition __init__ : t := {| pos := 0.0 |}.

Definition increment (self : t) : t :=
  {| pos := pos self + STEP_INCREMENT |}.

Definition decrement (self : t) : t :=
  {| pos := pos self - STEP_INCREMENT |}.

Definition only_position : string :=
  "You can only compare a Position with another Position".

(** [type(self) is type(other)] holds exactly in the first branch. *)
Definition __eq__ (self : t) (other : value) : result bool :=
  match other with
  | VPosition o =>
      Ok (Qle_bool (Qabs (pos self - pos o)) (STEP_INCREMENT / 2))
  | _ => Raise (TypeError only_position)
  end.

Definition __lt__ (self : t) (other : value) : result bool :=
  match other with
  | VPosition o =>
      result_bind (__eq__ self other) (fun e =>
      if e then Ok false else Ok (Qlt_bool (pos self) (pos o)))
  | _ => Raise (TypeError only_position)
  end.

(** Python's default [__ne__]: the inverted result of [__eq__]. *)
Definition __ne__ (self : t) (other : value) : result bool :=
  result_bind (__eq__ self other) (fun e => Ok (negb e)).

(** [__gt__] as [functools.total_ordering] derives it from [__lt__]:
    [not (self < other) and self != other]. *)
Definition __gt__ (self : t) (other : value) : result bool :=
  result_bind (__lt__ self other) (fun l =>
  if negb l then __ne__ self other else Ok false).
End Position.

(** ** class Axis (lines 110-173) *)

Module Axis.
Record t : Type := mk {
  _step_pin : Z;
  _dir_pin : Z;
  _current_position : Position.t;
  _target_position : Position.t;
  name : string
}.

Definition __init__ (step_pin dir_pin : Z) (name : string) : t :=
  {| _step_pin := step_pin;
     _dir_pin := dir_pin;
     _current_position := Position.__init__;
     _target_position := Position.__init__;
     name := name |}.

(** The [current_position] and [target_position] properties: the getter
    reads [pos], the setter overwrites it. *)
Definition current_position (self : t) : Q :=
  Position.pos (_current_position self).

(** The axis after its current [Position] object became [p]. *)
Definition with_current (self : t) (p : Position.t) : t :=
  {| _step_pin := _step_pin self;
     _dir_pin := _dir_pin self;
     _current_position := p;
     _target_position := _target_position self;
     name := name self |}.

Definition set_current_position (self : t) (val : Q) : t :=
  with_current self {| Position.pos := val |}.

Definition target_position (self : t) : Q :=
  Position.pos (_target_position self).

Definition set_target_position (self : t) (val : Q) : t :=
  {| _step_pin := _step_pin self;
     _dir_pin := _dir_pin self;
     _current_position := _current_position self;
     _target_position := {| Position.pos := val |};
     name := name self |}.

Definition is_in_position (self : t) : result bool :=
  Position.__eq__ (_current_position self)
                  (Position.VPosition (_target_position self)).

Definition _step_decrease (self : t) : M unit :=
  emit (GPIO_output (_dir_pin self) CW) ;;
  emit (GPIO_output (_step_pin self) GPIO.HIGH).

Definition _step_increase (self : t) : M unit :=
  emit (GPIO_output (_dir_pin self) CCW) ;;
  emit (GPIO_output (_step_pin self) GPIO.HIGH).

(** [move] returns the axis as the call leaves it. *)
Definition move (self : t) : M t :=
  lt <- lift (Position.__lt__ (_current_position self)
                (Position.VPosition (_target_position self))) ;;
  if lt : bool then
    _step_increase self ;;
    ret (with_current self (Position.increment (_current_position self)))
  else
    gt <- lift (Position.__gt__ (_current_position self)
                  (Position.VPosition (_target_position self))) ;;
    if gt : bool then
      _step_decrease self ;;
      ret (with_current self (Position.decrement (_current_position self)))
    else
      ret self.

Definition pulse_low (self : t) : M unit :=
  emit (GPIO_output (_step_pin self) GPIO.LOW).
End Axis.

(** ** The controller's functions (lines 36-107 and 207-240) *)

Definition wake_up : M unit := emit (GPIO_output SLEEP GPIO.HIGH).

Definition sleep : M unit := emit (GPIO_output SLEEP GPIO.LOW).

(** [all(axis.is_in_position() for axis in axes)]: the generator stops at
    the first axis that is out of position. *)
Fixpoint is_in_position (axes : list Axis.t) : result bool :=
  match axes with
  | [] => Ok true
  | axis :: rest =>
      result_bind (Axis.is_in_position axis) (fun b =>
      if b then is_in_position rest else Ok false)
  end.

(** The body of the [for] loop of [zero_if_cmd]. *)
Definition zero_axis (axis : Axis.t) : Axis.t :=
  Axis.set_target_position (Axis.set_current_position axis 0.0) 0.0.

(** [zero_if_cmd] returns its argument tuple as the call leaves it. *)
Definition zero_if_cmd (axes : list Axis.t) : M (list Axis.t) :=
  z <- get_zero_cmd ;;
  if z : bool then
    let axes' := List.map zero_axis axes in
    set_zero_cmd false ;;
    ret axes'
  else
    ret axes.

Definition set_up_gpio : M unit :=
  emit (GPIO_setmode GPIO.BOARD) ;;
  emit (GPIO_setup DIR_X GPIO.OUT) ;;
  emit (GPIO_setup STEP_X GPIO.OUT) ;;
  emit (GPIO_setup DIR_Y GPIO.OUT) ;;
  emit (GPIO_setup STEP_Y GPIO.OUT) ;;
  emit (GPIO_setup DIR_Z GPIO.OUT) ;;
  emit (GPIO_setup STEP_Z GPIO.OUT) ;;
  emit (GPIO_setup STEP_A GPIO.OUT) ;;
  emit (GPIO_setup DIR_A GPIO.OUT) ;;
  emit (GPIO_setup STEP_B GPIO.OUT) ;;
  emit (GPIO_setup DIR_B GPIO.OUT) ;;
  emit (GPIO_setup SLEEP GPIO.OUT).

Definition clean_up : M unit :=
  emit GPIO_cleanup ;;
  sleep.

(** The five local variables of [run]. *)
Record Axes : Type := mkAxes {
  x_axis : Axis.t;
  y_axis : Axis.t;
  z_axis : Axis.t;
  a_axis : Axis.t;
  b_axis : Axis.t
}.

Definition Axes_list (ax : Axes) : list Axis.t :=
  [x_axis ax; y_axis ax; z_axis ax; a_axis ax; b_axis ax].

(** Lines 40-44. *)
Definition run_axes : Axes :=
  {| x_axis := Axis.__init__ STEP_X DIR_X "x";
     y_axis := Axis.__init__ STEP_Y DIR_Y "y";
     z_axis := Axis.__init__ STEP_Z DIR_Z "z";
     a_axis := Axis.__init__ STEP_A DIR_A "a";
     b_axis := Axis.__init__ STEP_B DIR_B "b" |}.

(** Lines 48-54, the command ingestion of one loop iteration: the zero
    check, then the five target assignments. After [zero_if_cmd] the five
    names denote the objects at positions 0..4 of its argument tuple. *)
Definition run_ingest (ax : Axes) : M Axes :=
  axes <- zero_if_cmd (Axes_list ax) ;;
  tx <- get_target "x" ;;
  let x := Axis.set_target_position (nth 0 axes (x_axis ax)) tx in
  ty <- get_target "y" ;;
  let y := Axis.set_target_position (nth 1 axes (y_axis ax)) ty in
  tz <- get_target "z" ;;
  let z := Axis.set_target_position (nth 2 axes (z_axis ax)) tz in
  ta <- get_target "a" ;;
  let a := Axis.set_target_position (nth 3 axes (a_axis ax)) ta in
  tb <- get_target "b" ;;
  let b := Axis.set_target_position (nth 4 axes (b_axis ax)) tb in
  ret {| x_axis := x; y_axis := y; z_axis := z; a_axis := a; b_axis := b |}.

(** Lines 58-79, the rest of the iteration: the position check and either
    the pulse on every axis or the sleep signal. *)
Definition run_drive (ax : Axes) : M Axes :=
  inpos <- lift (is_in_position (Axes_list ax)) ;;
  if negb inpos then
    wake_up ;;
    x <- Axis.move (x_axis ax) ;;
    y <- Axis.move (y_axis ax) ;;
    z <- Axis.move (z_axis ax) ;;
    a <- Axis.move (a_axis ax) ;;
    b <- Axis.move (b_axis ax) ;;
    emit (time_sleep 0.00075) ;;
    Axis.pulse_low x ;;
    Axis.pulse_low y ;;
    Axis.pulse_low z ;;
    Axis.pulse_low a ;;
    Axis.pulse_low b ;;
    emit (time_sleep 0.00075) ;;
    ret {| x_axis := x; y_axis := y; z_axis := z; a_axis := a; b_axis := b |}
  else
    sleep ;;
    ret ax.

(** One iteration of [while True] (lines 48-81). *)
Definition run_body (ax : Axes) : M Axes :=
  ax' <- run_ingest ax ;;
  run_drive ax'.

(** The first [n] iterations of the loop of [run], which has no exit. *)
Fixpoint run_loop (n : nat) (ax : Axes) : M Axes :=
  match n with
  | O => ret ax
  | S n' => ax' <- run_body ax ;; run_loop n' ax'
  end.

Definition run (n : nat) : M Axes :=
  set_up_gpio ;;
  run_loop n run_axes.

(** [n] successive calls of [move] on one axis. *)
Fixpoint move_n (n : nat) (self : Axis.t) : M Axis.t :=
  match n with
  | O => ret self
  | S n' => self' <- Axis.move self ;; move_n n' self'
  end.

(** ** Vocabulary of the statements *)

Definition step_pins (ax : Axes) : list Z :=
  List.map Axis._step_pin (Axes_list ax).

Definition dir_pins (ax : Axes) : list Z :=
  List.map Axis._dir_pin (Axes_list ax).

(** The axes are wired as [run] constructs them. *)
Definition wired (ax : Axes) : Prop :=
  step_pins ax = step_pins run_axes /\ dir_pins ax = dir_pins run_axes.

(** [e] writes one of the channels [pins]. *)
Definition writes_to (pins : list Z) (e : event) : bool :=
  match e with
  | GPIO_output channel _ => existsb (Z.eqb channel) pins
  | _ => false
  end.

Definition is_delay (e : event) : bool :=
  match e with
  | time_sleep _ => true
  | _ => false
  end.

(** The events of the two moving branches of [move]. *)
Definition increase_events (self : Axis.t) : list event :=
  [GPIO_output (Axis._dir_pin self) CCW;
   GPIO_output (Axis._step_pin self) GPIO.HIGH].

Definition decrease_events (self : Axis.t) : list event :=
  [GPIO_output (Axis._dir_pin self) CW;
   GPIO_output (Axis._step_pin self) GPIO.HIGH].

(** Sample states: a command source that asks every axis for [v], with
    the zero flag [z] and nothing written yet, and the axes of [run] once
    each stands at [c] with target [t]. *)
Definition uniform_targets (v : Q) : gmap string Q :=
  <["x" := v]> (<["y" := v]> (<["z" := v]> (<["a" := v]> (<["b" := v]> ∅)))).

Definition sample_world (z : bool) (v : Q) : World :=
  {| trace := []; data := {| zero_cmd := z; targets := uniform_targets v |} |}.

Definition displaced (c t : Q) (axis : Axis.t) : Axis.t :=
  Axis.set_target_position (Axis.set_current_position axis c) t.

Definition sample_axes (c t : Q) : Axes :=
  {| x_axis := displaced c t (x_axis run_axes);
     y_axis := displaced c t (y_axis run_axes);
     z_axis := displaced c t (z_axis run_axes);
     a_axis := displaced c t (a_axis run_axes);
     b_axis := displaced c t (b_axis run_axes) |}.


(** The axis names in the order in which [run] reads their targets, and
    the first of them for which the command source [m] holds none. *)
Definition axis_names : list string := ["x"; "y"; "z"; "a"; "b"].

Definition first_missing (m : gmap string Q) : option string :=
  List.find (fun key => match m !! key with
                        | Some _ => false
                        | None => true
                        end) axis_names.

(** Every [GPIO.output] of [tr] goes to a channel that [seen] or an earlier
    [GPIO.setup] of [tr] made an output ([GPIO.cleanup] undoes them all). *)
Fixpoint outputs_configured (seen : list Z) (tr : list event) : bool :=
  match tr with
  | [] => true
  | GPIO_setup channel GPIO.OUT :: rest =>
      outputs_configured (channel :: seen) rest
  | GPIO_output channel _ :: rest =>
      existsb (Z.eqb channel) seen && outputs_configured seen rest
  | GPIO_cleanup :: rest => outputs_configured [] rest
  | _ :: rest => outputs_configured seen rest
  end.

(** The level that [tr] wrote last to [channel], if it wrote any. *)
Fixpoint last_level (channel : Z) (tr : list event) : option Z :=
  match tr with
  | [] => None
  | e :: rest =>
      match last_level channel rest with
      | Some level => Some level
      | None =>
          match e with
          | GPIO_output c level =>
              if (c =? channel)%Z then Some level else None
          | _ => None
          end
      end
  end.

(** In any world, [move] turns [self] into [self'] and writes [evs]. *)
Definition moves_to (self self' : Axis.t) (evs : list event) : Prop :=
  forall w, Axis.move self w = Ok (self', after w evs).


(** The channels that [run] uses, and the events its loop may emit: a write
    to one of them, or a dwell. *)
Definition run_channels : list Z :=
  SLEEP :: step_pins run_axes ++ dir_pins run_axes.

Definition loop_event (e : event) : bool :=
  writes_to run_channels e || is_delay e.

(** * Properties *)

(** ** Arithmetic of the step and of the deadzone *)

Section StepArithmetic.
Local Open Scope Q_scope.


Lemma STEP_INCREMENT_pos : 0 < STEP_INCREMENT.
Proof. reflexivity. Qed.

Lemma half_step : STEP_INCREMENT / 2 == STEP_INCREMENT * (1 # 2).
Proof. reflexivity. Qed.

Lemma Qlt_bool_iff (x y : Q) : Qlt_bool x y = true <-> x < y.
Proof. unfold Qlt_bool, Qlt. apply Z.ltb_lt. Qed.

Lemma Qle_bool_false_iff (x y : Q) : Qle_bool x y = false <-> y < x.
Proof.
  split; intros H.
  - apply Qnot_le_lt. intros Hle. apply Qle_bool_iff in Hle. congruence.
  - destruct (Qle_bool x y) eqn:E; [| reflexivity].
    apply Qle_bool_iff in E. apply Qlt_not_le in H. contradiction.
Qed.
End StepArithmetic.

(** Linear arithmetic over [Q] with the step kept symbolic and positive. *)
Ltac step_arith :=
  pose proof STEP_INCREMENT_pos;
  rewrite ?half_step in *;
  lra.


(** ** Position: the tolerant comparison *)

Section PositionFacts.
Local Open Scope Q_scope.
Import Position.

Implicit Types p q r : Position.t.

Lemma eq_position p q :
  __eq__ p (VPosition q)
  = Ok (Qle_bool (Qabs (pos p - pos q)) (STEP_INCREMENT / 2)).
Proof. reflexivity. Qed.

Lemma eq_true_iff p q :
  __eq__ p (VPosition q) = Ok true
  <-> Qabs (pos p - pos q) <= STEP_INCREMENT / 2.
Proof.
  rewrite eq_position. split.
  - intros [= H]. apply Qle_bool_iff, H.
  - intros H. f_equal. apply Qle_bool_iff, H.
Qed.

Lemma eq_sym p q : __eq__ p (VPosition q) = __eq__ q (VPosition p).
Proof. rewrite !eq_position, Qabs_Qminus. reflexivity. Qed.

(** Outside the deadzone the absolute gap is the signed gap of the
    larger side. *)
Lemma outside_deadzone (x y : Q) :
  STEP_INCREMENT / 2 < Qabs (x - y)
  <-> STEP_INCREMENT / 2 < y - x \/ STEP_INCREMENT / 2 < x - y.
Proof.
  split.
  - intros H. destruct (Qlt_le_dec (STEP_INCREMENT / 2) (y - x)) as [|Hyx];
      [left; assumption |].
    destruct (Qlt_le_dec (STEP_INCREMENT / 2) (x - y)) as [|Hxy];
      [right; assumption |].
    exfalso. apply (Qlt_not_le _ _ H), Qabs_Qle_condition.
    split; step_arith.
  - intros H. apply Qnot_le_lt. intros Hle.
    apply Qabs_Qle_condition in Hle. destruct H; step_arith.
Qed.

Lemma lt_true_iff p q :
  __lt__ p (VPosition q) = Ok true <-> STEP_INCREMENT / 2 < pos q - pos p.
Proof.
  unfold __lt__. rewrite eq_position. cbn [result_bind].
  destruct (Qle_bool _ _) eqn:E.
  - apply Qle_bool_iff, Qabs_Qle_condition in E.
    split; [discriminate | intros; step_arith].
  - apply Qle_bool_false_iff, outside_deadzone in E.
    split.
    + intros [= Hlt]. apply Qlt_bool_iff in Hlt. destruct E; step_arith.
    + intros Hgap. f_equal. apply Qlt_bool_iff. step_arith.
Qed.

Lemma lt_total p q : exists b, __lt__ p (VPosition q) = Ok b.
Proof.
  unfold __lt__. rewrite eq_position. cbn [result_bind].
  destruct (Qle_bool _ _); eauto.
Qed.

Lemma lt_false_iff p q :
  __lt__ p (VPosition q) = Ok false <-> pos q - pos p <= STEP_INCREMENT / 2.
Proof.
  destruct (lt_total p q) as [[|] Hb]; rewrite Hb.
  - apply lt_true_iff in Hb. split; [discriminate | intros; step_arith].
  - split; [intros _ | reflexivity].
    apply Qnot_lt_le. intros Hgap. apply lt_true_iff in Hgap. congruence.
Qed.

Lemma gt_true_iff p q :
  __gt__ p (VPosition q) = Ok true <-> STEP_INCREMENT / 2 < pos p - pos q.
Proof.
  unfold __gt__, __ne__.
  destruct (lt_total p q) as [[|] Hb]; rewrite Hb; cbn [result_bind negb].
  - apply lt_true_iff in Hb. split; [discriminate | intros; step_arith].
  - apply lt_false_iff in Hb. rewrite eq_position. cbn [result_bind].
    destruct (Qle_bool _ _) eqn:E; cbn [negb].
    + apply Qle_bool_iff, Qabs_Qle_condition in E.
      split; [discriminate | intros; step_arith].
    + apply Qle_bool_false_iff, outside_deadzone in E.
      split; [intros _ | reflexivity]. destruct E; step_arith.
Qed.

Lemma gt_total p q : exists b, __gt__ p (VPosition q) = Ok b.
Proof.
  unfold __gt__, __ne__.
  destruct (lt_total p q) as [[|] Hb]; rewrite Hb; cbn [result_bind negb].
  - eauto.
  - rewrite eq_position. cbn [result_bind]. eauto.
Qed.

(** What [total_ordering] derives agrees with [__lt__] the other way
    round. *)
Lemma gt_is_lt_swapped p q :
  __gt__ p (VPosition q) = __lt__ q (VPosition p).
Proof.
  destruct (gt_total p q) as [[|] Hg], (lt_total q p) as [[|] Hl];
    rewrite Hg, Hl; try reflexivity; exfalso.
  - apply gt_true_iff in Hg. apply lt_false_iff in Hl. step_arith.
  - apply lt_true_iff, gt_true_iff in Hl. congruence.
Qed.

(** A pair of values is on one side of the deadzone or inside it. *)
Lemma gap_cases (x y : Q) :
  STEP_INCREMENT / 2 < y - x
  \/ STEP_INCREMENT / 2 < x - y
  \/ Qabs (x - y) <= STEP_INCREMENT / 2.
Proof.
  destruct (Qlt_le_dec (STEP_INCREMENT / 2) (Qabs (x - y))) as [H | H].
  - apply outside_deadzone in H. tauto.
  - auto.
Qed.
End PositionFacts.

(** ** Worked runs *)

Section WorkedRuns.
Local Open Scope Q_scope.
Import Position.

Example within_deadzone :
  __eq__ {| pos := 0 |} (VPosition {| pos := 0.00635 |}) = Ok true
  /\ __eq__ {| pos := 0 |} (VPosition {| pos := 0.00636 |}) = Ok false
  /\ __lt__ {| pos := 0 |} (VPosition {| pos := 0.00636 |}) = Ok true
  /\ __gt__ {| pos := 0 |} (VPosition {| pos := - 0.00636 |}) = Ok true.
Proof. repeat split. Qed.

Example greater_than_string_raises :
  __gt__ {| pos := 0 |} (VStr "0") = Raise (TypeError only_position).
Proof. reflexivity. Qed.

(** From 0 to ten steps away: ten calls of [move] arrive, nine do not. *)
Example ten_steps_away :
  let axis := displaced 0 (10 * STEP_INCREMENT) (x_axis run_axes) in
  let arrived (n : nat) :=
    match move_n n axis (sample_world false 0) with
    | Ok (axis', w') => (Axis.is_in_position axis', length (trace w'))
    | Raise e => (Raise e, 0%nat)
    end in
  arrived 9%nat = (Ok false, 18%nat) /\ arrived 10%nat = (Ok true, 20%nat)
  /\ arrived 12%nat = (Ok true, 20%nat).
Proof. vm_compute. repeat split. Qed.

(** The first iteration of [run] with the zero flag set and every target
    one step away: the set-up, the wake, five pulses between their dwells. *)
Example first_iteration :
  match run 1 (sample_world true STEP_INCREMENT) with
  | Ok (_, w') =>
      skipn 12 (trace w')
      = [GPIO_output SLEEP GPIO.HIGH;
         GPIO_output DIR_X CCW; GPIO_output STEP_X GPIO.HIGH;
         GPIO_output DIR_Y CCW; GPIO_output STEP_Y GPIO.HIGH;
         GPIO_output DIR_Z CCW; GPIO_output STEP_Z GPIO.HIGH;
         GPIO_output DIR_A CCW; GPIO_output STEP_A GPIO.HIGH;
         GPIO_output DIR_B CCW; GPIO_output STEP_B GPIO.HIGH;
         time_sleep 0.00075;
         GPIO_output STEP_X GPIO.LOW; GPIO_output STEP_Y GPIO.LOW;
         GPIO_output STEP_Z GPIO.LOW; GPIO_output STEP_A GPIO.LOW;
         GPIO_output STEP_B GPIO.LOW;
         time_sleep 0.00075]
      /\ zero_cmd (data w') = false
  | Raise _ => False
  end.
Proof. vm_compute. split; reflexivity. Qed.
End WorkedRuns.

Section PositionClaims.
Local Open Scope Q_scope.
Import Position.



(** C8. For every Position [p] and every value [v] whose type is not
    Position, both the equality test and the less-than test of [p]
    against [v] raise a TypeError: neither returns a boolean. *)
Theorem Position_compare_non_position_raises (p : Position.t) (v : value) :
  type v <> TPosition ->
  exists msg,
    __eq__ p v = Raise (TypeError msg) /\ __lt__ p v = Raise (TypeError msg).
Proof.
  intros Hty. exists only_position.
  destruct v; solve [contradiction Hty; reflexivity | split; reflexivity].
Qed.

Lemma Position_compare_non_position_raises_witness :
  exists msg,
    __eq__ {| pos := 0 |} (VFloat 0) = Raise (TypeError msg)
    /\ __lt__ {| pos := 0 |} (VFloat 0) = Raise (TypeError msg).
Proof.
  apply (Position_compare_non_position_raises {| pos := 0 |} (VFloat 0)).
  simpl. discriminate.
Defined.

(** C10. The tolerant equality is not transitive: the Positions of values
    0, STEP_INCREMENT / 2 and STEP_INCREMENT are such that the first equals
    the second, the second equals the third, and the first does not equal
    the third. *)
Theorem Position_eq_not_transitive :
  exists p q r : Position.t,
    pos p = 0 /\ pos q = STEP_INCREMENT / 2 /\ pos r = STEP_INCREMENT
    /\ __eq__ p (VPosition q) = Ok true
    /\ __eq__ q (VPosition r) = Ok true
    /\ __eq__ p (VPosition r) = Ok false.
Proof.
  exists {| pos := 0 |}, {| pos := STEP_INCREMENT / 2 |},
         {| pos := STEP_INCREMENT |}.
  repeat split.
Qed.
End PositionClaims.

(** ** Worlds and traces *)

Section WorldFacts.
Lemma after_nil (w : World) : after w [] = w.
Proof. destruct w. unfold after. cbn [trace data]. rewrite app_nil_r. reflexivity. Qed.

Lemma after_after (w : World) (e1 e2 : list event) :
  after (after w e1) e2 = after w (e1 ++ e2).
Proof. unfold after. cbn [trace data]. rewrite app_assoc. reflexivity. Qed.

Lemma trace_after (w : World) (evs : list event) :
  trace (after w evs) = trace w ++ evs.
Proof. reflexivity. Qed.

Lemma bind_Ok {A B} (m : M A) (k : A -> M B) (w w' : World) (a : A) :
  m w = Ok (a, w') -> bind m k w = k a w'.
Proof. unfold bind. intros ->. reflexivity. Qed.

Lemma emit_Ok (e : event) (w : World) : emit e w = Ok (tt, after w [e]).
Proof. reflexivity. Qed.
End WorldFacts.

(** ** Axis: one call of [move] *)

Section AxisFacts.
Local Open Scope Q_scope.
Import Position.

Implicit Types self : Axis.t.

Lemma step_increase_Ok self w :
  Axis._step_increase self w = Ok (tt, after w (increase_events self)).
Proof.
  unfold Axis._step_increase, bind. rewrite !emit_Ok, after_after.
  reflexivity.
Qed.

Lemma step_decrease_Ok self w :
  Axis._step_decrease self w = Ok (tt, after w (decrease_events self)).
Proof.
  unfold Axis._step_decrease, bind. rewrite !emit_Ok, after_after.
  reflexivity.
Qed.

Lemma move_increase self w :
  __lt__ (Axis._current_position self)
         (VPosition (Axis._target_position self)) = Ok true ->
  Axis.move self w
  = Ok (Axis.with_current self (increment (Axis._current_position self)),
        after w (increase_events self)).
Proof.
  intros Hlt. unfold Axis.move, bind, lift. rewrite Hlt.
  rewrite step_increase_Ok. reflexivity.
Qed.

Lemma move_decrease self w :
  __lt__ (Axis._target_position self)
         (VPosition (Axis._current_position self)) = Ok true ->
  Axis.move self w
  = Ok (Axis.with_current self (decrement (Axis._current_position self)),
        after w (decrease_events self)).
Proof.
  intros Hgt.
  assert (Hlt : __lt__ (Axis._current_position self)
                  (VPosition (Axis._target_position self)) = Ok false).
  { apply lt_true_iff in Hgt. apply lt_false_iff. step_arith. }
  rewrite <- gt_is_lt_swapped in Hgt.
  unfold Axis.move, bind, lift. rewrite Hlt, Hgt.
  rewrite step_decrease_Ok. reflexivity.
Qed.

Lemma move_hold self w :
  Axis.is_in_position self = Ok true -> Axis.move self w = Ok (self, w).
Proof.
  unfold Axis.is_in_position. intros Heq.
  apply eq_true_iff, Qabs_Qle_condition in Heq.
  assert (Hlt : __lt__ (Axis._current_position self)
                  (VPosition (Axis._target_position self)) = Ok false).
  { apply lt_false_iff. step_arith. }
  assert (Hgt : __gt__ (Axis._current_position self)
                  (VPosition (Axis._target_position self)) = Ok false).
  { rewrite gt_is_lt_swapped. apply lt_false_iff. step_arith. }
  unfold Axis.move, bind, lift. rewrite Hlt, Hgt. reflexivity.
Qed.

(** The three cases of [move], by the signed gap to the target. *)
Lemma move_cases self :
  __lt__ (Axis._current_position self)
         (VPosition (Axis._target_position self)) = Ok true
  \/ __lt__ (Axis._target_position self)
            (VPosition (Axis._current_position self)) = Ok true
  \/ Axis.is_in_position self = Ok true.
Proof.
  unfold Axis.is_in_position.
  destruct (gap_cases (pos (Axis._current_position self))
              (pos (Axis._target_position self))) as [H | [H | H]].
  - left. apply lt_true_iff, H.
  - right. left. apply lt_true_iff, H.
  - right. right. apply eq_true_iff, H.
Qed.
End AxisFacts.

Section AxisTotal.
Local Open Scope Q_scope.
Import Position.

Implicit Types self : Axis.t.

(** [move] always returns; it leaves the pins, the name and the target as
    they were and emits the events of at most one branch. *)
Lemma move_total self w :
  exists self' evs,
    Axis.move self w = Ok (self', after w evs)
    /\ Axis._step_pin self' = Axis._step_pin self
    /\ Axis._dir_pin self' = Axis._dir_pin self
    /\ Axis._target_position self' = Axis._target_position self
    /\ Axis.name self' = Axis.name self
    /\ (evs = [] \/ evs = increase_events self \/ evs = decrease_events self).
Proof.
  destruct (move_cases self) as [H | [H | H]].
  - eexists _, _. rewrite (move_increase _ _ H). repeat split. auto.
  - eexists _, _. rewrite (move_decrease _ _ H). repeat split. auto.
  - exists self, []. rewrite (move_hold _ _ H), after_nil. repeat split. auto.
Qed.




End AxisTotal.

Section AxisClaims.
Local Open Scope Q_scope.
Import Position.

(** C2. [move] is a single-step transition. If the current position is
    tolerantly less than the target, it writes the direction signal with
    the increase direction (CCW), then the step signal HIGH, and the current
    position grows by one STEP_INCREMENT. If it is tolerantly greater, it
    writes the decrease direction (CW), then the step signal HIGH, and the
    current position shrinks by one STEP_INCREMENT. In both moving branches
    the direction write comes before the step-HIGH write. If current and
    target are tolerantly equal, [move] writes no signal and changes no
    position. *)
Theorem move_single_step (self : Axis.t) (w : World) :
  let current := Axis._current_position self in
  let target := Axis._target_position self in
  (__lt__ current (VPosition target) = Ok true ->
   exists self',
     Axis.move self w
     = Ok (self', after w [GPIO_output (Axis._dir_pin self) CCW;
                           GPIO_output (Axis._step_pin self) GPIO.HIGH])
     /\ self' = Axis.with_current self (increment current)
     /\ Axis.current_position self'
        = Axis.current_position self + STEP_INCREMENT)
  /\ (__lt__ target (VPosition current) = Ok true ->
      exists self',
        Axis.move self w
        = Ok (self', after w [GPIO_output (Axis._dir_pin self) CW;
                              GPIO_output (Axis._step_pin self) GPIO.HIGH])
        /\ self' = Axis.with_current self (decrement current)
        /\ Axis.current_position self'
           = Axis.current_position self - STEP_INCREMENT)
  /\ (__eq__ current (VPosition target) = Ok true ->
      Axis.move self w = Ok (self, w)).
Proof.
  intros current target. split; [| split].
  - intros H. eexists. split; [apply (move_increase _ _ H) |].
    split; reflexivity.
  - intros H. eexists. split; [apply (move_decrease _ _ H) |].
    split; reflexivity.
  - intros H. apply move_hold, H.
Qed.

Lemma move_single_step_witness :
  let up := Axis.set_target_position (Axis.__init__ STEP_X DIR_X "x") 1 in
  let down := Axis.set_target_position (Axis.__init__ STEP_X DIR_X "x") (-1) in
  let still := Axis.__init__ STEP_X DIR_X "x" in
  let w := {| trace := []; data := {| zero_cmd := false; targets := ∅ |} |} in
  (exists self',
     Axis.move up w
     = Ok (self', after w [GPIO_output DIR_X CCW; GPIO_output STEP_X GPIO.HIGH])
     /\ Axis.current_position self' = 0.0 + STEP_INCREMENT)
  /\ (exists self',
        Axis.move down w
        = Ok (self', after w [GPIO_output DIR_X CW;
                              GPIO_output STEP_X GPIO.HIGH])
        /\ Axis.current_position self' = 0.0 - STEP_INCREMENT)
  /\ Axis.move still w = Ok (still, w).
Proof.
  intros up down still w. split; [| split].
  - destruct (move_single_step up w) as (Hup & _ & _).
    destruct Hup as (self' & Hmove & _ & Hcur); [reflexivity |].
    exists self'. split; [exact Hmove | exact Hcur].
  - destruct (move_single_step down w) as (_ & Hdown & _).
    destruct Hdown as (self' & Hmove & _ & Hcur); [reflexivity |].
    exists self'. split; [exact Hmove | exact Hcur].
  - destruct (move_single_step still w) as (_ & _ & Hstill).
    apply Hstill. reflexivity.
Defined.

(** C9. Frame property of [move]: the call always returns, and it leaves
    the axis's target position unchanged (as well as its pins and name, and
    the command source); only the current position and the output signals
    may change. *)
Theorem move_preserves_target (self : Axis.t) (w : World) :
  exists self' w',
    Axis.move self w = Ok (self', w')
    /\ Axis._target_position self' = Axis._target_position self
    /\ Axis.target_position self' = Axis.target_position self
    /\ Axis._step_pin self' = Axis._step_pin self
    /\ Axis._dir_pin self' = Axis._dir_pin self
    /\ Axis.name self' = Axis.name self
    /\ data w' = data w.
Proof.
  destruct (move_total self w) as (self' & evs & Hm & Hs & Hd & Ht & Hn & _).
  exists self', (after w evs). unfold Axis.target_position.
  rewrite Ht. repeat split; assumption.
Qed.

End AxisClaims.

(** ** The loop body: command ingestion *)

Section IngestFacts.
Local Open Scope Q_scope.

Lemma get_target_Ok (key : string) (v : Q) (w : World) :
  targets (data w) !! key = Some v -> get_target key w = Ok (v, w).
Proof. unfold get_target. intros ->. reflexivity. Qed.

Lemma zero_if_cmd_set (axes : list Axis.t) (w : World) :
  zero_cmd (data w) = true ->
  zero_if_cmd axes w
  = Ok (List.map zero_axis axes,
        {| trace := trace w;
           data := {| zero_cmd := false; targets := targets (data w) |} |}).
Proof.
  intros Hz. unfold zero_if_cmd, bind, get_zero_cmd. rewrite Hz. reflexivity.
Qed.

Lemma zero_if_cmd_unset (axes : list Axis.t) (w : World) :
  zero_cmd (data w) = false -> zero_if_cmd axes w = Ok (axes, w).
Proof.
  intros Hz. unfold zero_if_cmd, bind, get_zero_cmd. rewrite Hz. reflexivity.
Qed.

(** The five assignments of lines 50-54, on the axes [axes] that the zero
    check left. *)
Lemma assign_targets_Ok (ax : Axes) (axes : list Axis.t) (w : World)
      (tx ty tz ta tb : Q) :
  targets (data w) !! "x" = Some tx ->
  targets (data w) !! "y" = Some ty ->
  targets (data w) !! "z" = Some tz ->
  targets (data w) !! "a" = Some ta ->
  targets (data w) !! "b" = Some tb ->
  (tx <- get_target "x" ;;
   let x := Axis.set_target_position (nth 0 axes (x_axis ax)) tx in
   ty <- get_target "y" ;;
   let y := Axis.set_target_position (nth 1 axes (y_axis ax)) ty in
   tz <- get_target "z" ;;
   let z := Axis.set_target_position (nth 2 axes (z_axis ax)) tz in
   ta <- get_target "a" ;;
   let a := Axis.set_target_position (nth 3 axes (a_axis ax)) ta in
   tb <- get_target "b" ;;
   let b := Axis.set_target_position (nth 4 axes (b_axis ax)) tb in
   ret {| x_axis := x; y_axis := y; z_axis := z; a_axis := a; b_axis := b |}) w
  = Ok ({| x_axis := Axis.set_target_position (nth 0 axes (x_axis ax)) tx;
           y_axis := Axis.set_target_position (nth 1 axes (y_axis ax)) ty;
           z_axis := Axis.set_target_position (nth 2 axes (z_axis ax)) tz;
           a_axis := Axis.set_target_position (nth 3 axes (a_axis ax)) ta;
           b_axis := Axis.set_target_position (nth 4 axes (b_axis ax)) tb |},
        w).
Proof.
  intros Hx Hy Hz Ha Hb.
  rewrite (bind_Ok _ _ _ _ _ (get_target_Ok _ _ _ Hx)). cbv beta zeta.
  rewrite (bind_Ok _ _ _ _ _ (get_target_Ok _ _ _ Hy)). cbv beta zeta.
  rewrite (bind_Ok _ _ _ _ _ (get_target_Ok _ _ _ Hz)). cbv beta zeta.
  rewrite (bind_Ok _ _ _ _ _ (get_target_Ok _ _ _ Ha)). cbv beta zeta.
  rewrite (bind_Ok _ _ _ _ _ (get_target_Ok _ _ _ Hb)). cbv beta zeta.
  reflexivity.
Qed.

(** Ingestion with the zero flag set. *)
Lemma run_ingest_zero (ax : Axes) (w : World) (tx ty tz ta tb : Q) :
  zero_cmd (data w) = true ->
  targets (data w) !! "x" = Some tx ->
  targets (data w) !! "y" = Some ty ->
  targets (data w) !! "z" = Some tz ->
  targets (data w) !! "a" = Some ta ->
  targets (data w) !! "b" = Some tb ->
  run_ingest ax w
  = Ok ({| x_axis := Axis.set_target_position (zero_axis (x_axis ax)) tx;
           y_axis := Axis.set_target_position (zero_axis (y_axis ax)) ty;
           z_axis := Axis.set_target_position (zero_axis (z_axis ax)) tz;
           a_axis := Axis.set_target_position (zero_axis (a_axis ax)) ta;
           b_axis := Axis.set_target_position (zero_axis (b_axis ax)) tb |},
        {| trace := trace w;
           data := {| zero_cmd := false; targets := targets (data w) |} |}).
Proof.
  intros Hzero Hx Hy Hz Ha Hb. unfold run_ingest.
  rewrite (bind_Ok _ _ _ _ _ (zero_if_cmd_set _ _ Hzero)).
  rewrite (assign_targets_Ok ax _ _ tx ty tz ta tb) by assumption.
  reflexivity.
Qed.

(** Ingestion with the zero flag unset. *)
Lemma run_ingest_plain (ax : Axes) (w : World) (tx ty tz ta tb : Q) :
  zero_cmd (data w) = false ->
  targets (data w) !! "x" = Some tx ->
  targets (data w) !! "y" = Some ty ->
  targets (data w) !! "z" = Some tz ->
  targets (data w) !! "a" = Some ta ->
  targets (data w) !! "b" = Some tb ->
  run_ingest ax w
  = Ok ({| x_axis := Axis.set_target_position (x_axis ax) tx;
           y_axis := Axis.set_target_position (y_axis ax) ty;
           z_axis := Axis.set_target_position (z_axis ax) tz;
           a_axis := Axis.set_target_position (a_axis ax) ta;
           b_axis := Axis.set_target_position (b_axis ax) tb |},
        w).
Proof.
  intros Hzero Hx Hy Hz Ha Hb. unfold run_ingest.
  rewrite (bind_Ok _ _ _ _ _ (zero_if_cmd_unset _ _ Hzero)).
  rewrite (assign_targets_Ok ax _ _ tx ty tz ta tb) by assumption.
  reflexivity.
Qed.
End IngestFacts.

Section DriveFacts.
Local Open Scope Q_scope.

Lemma bind_inv {A B} (m : M A) (k : A -> M B) (w : World) (r : B * World) :
  bind m k w = Ok r -> exists a w', m w = Ok (a, w') /\ k a w' = Ok r.
Proof.
  unfold bind. destruct (m w) as [[a w'] | e]; [eauto | discriminate].
Qed.

Lemma get_target_inv (key : string) (v : Q) (w w' : World) :
  get_target key w = Ok (v, w') -> w' = w.
Proof.
  unfold get_target. destruct (targets (data w) !! key); [| discriminate].
  intros H. inversion H. reflexivity.
Qed.

(** The zero check writes no signal and keeps the pins of every axis. *)
Lemma zero_if_cmd_quiet (axes axes' : list Axis.t) (w w' : World) :
  zero_if_cmd axes w = Ok (axes', w') ->
  trace w' = trace w
  /\ List.map Axis._step_pin axes' = List.map Axis._step_pin axes
  /\ List.map Axis._dir_pin axes' = List.map Axis._dir_pin axes.
Proof.
  destruct (zero_cmd (data w)) eqn:Hz.
  - rewrite (zero_if_cmd_set _ _ Hz). intros H. inversion H. subst.
    rewrite !List.map_map. repeat split.
  - rewrite (zero_if_cmd_unset _ _ Hz). intros H. inversion H. subst.
    repeat split.
Qed.

(** Ingestion writes no signal and rewires nothing. *)
Lemma run_ingest_quiet (ax ax1 : Axes) (w w1 : World) :
  run_ingest ax w = Ok (ax1, w1) ->
  trace w1 = trace w
  /\ step_pins ax1 = step_pins ax
  /\ dir_pins ax1 = dir_pins ax.
Proof.
  unfold run_ingest. intros H.
  apply bind_inv in H as (axes & w0 & Hzero & H).
  apply bind_inv in H as (tx & wx & Hx & H). apply get_target_inv in Hx.
  apply bind_inv in H as (ty & wy & Hy & H). apply get_target_inv in Hy.
  apply bind_inv in H as (tz & wz & Hz & H). apply get_target_inv in Hz.
  apply bind_inv in H as (ta & wa & Ha & H). apply get_target_inv in Ha.
  apply bind_inv in H as (tb & wb & Hb & H). apply get_target_inv in Hb.
  subst. unfold ret in H. inversion H. subst. clear H.
  apply zero_if_cmd_quiet in Hzero as (Htrace & Hstep & Hdir).
  unfold Axes_list in Hstep, Hdir.
  destruct axes as [| x [| y [| z [| a [| b [| ? ?]]]]]]; try discriminate.
  unfold step_pins, dir_pins, Axes_list.
  cbn [nth x_axis y_axis z_axis a_axis b_axis List.map
       Axis.set_target_position Axis._step_pin Axis._dir_pin].
  auto.
Qed.

Lemma is_in_position_total (axes : list Axis.t) :
  exists b, is_in_position axes = Ok b.
Proof.
  induction axes as [| axis rest [b IH]]; cbn [is_in_position]; [eauto |].
  unfold Axis.is_in_position. rewrite eq_position. cbn [result_bind].
  destruct (Qle_bool _ _); eauto.
Qed.

Lemma run_drive_idle (ax : Axes) (w : World) :
  is_in_position (Axes_list ax) = Ok true ->
  run_drive ax w = Ok (ax, after w [GPIO_output SLEEP GPIO.LOW]).
Proof.
  intros Hin. unfold run_drive, bind, lift. rewrite Hin. reflexivity.
Qed.

(** The events of a moving iteration, given what each [move] emitted. *)
Lemma run_drive_move (ax : Axes) (w : World) :
  is_in_position (Axes_list ax) = Ok false ->
  exists ax' moves,
    run_drive ax w
    = Ok (ax', after w (GPIO_output SLEEP GPIO.HIGH :: moves
                        ++ time_sleep 0.00075
                        :: List.map (fun p => GPIO_output p GPIO.LOW)
                                    (step_pins ax)
                        ++ [time_sleep 0.00075]))
    /\ step_pins ax' = step_pins ax
    /\ dir_pins ax' = dir_pins ax.
Proof.
  intros Hin. unfold run_drive.
  rewrite (bind_Ok _ _ w w false) by (unfold lift; rewrite Hin; reflexivity).
  cbn [negb]. unfold wake_up.
  rewrite (bind_Ok _ _ _ _ _ (emit_Ok _ _)).
  destruct (move_total (x_axis ax) (after w [GPIO_output SLEEP GPIO.HIGH]))
    as (x & ex & Hx & Hxs & Hxd & _).
  rewrite (bind_Ok _ _ _ _ _ Hx).
  destruct (move_total (y_axis ax)
              (after (after w [GPIO_output SLEEP GPIO.HIGH]) ex))
    as (y & ey & Hy & Hys & Hyd & _).
  rewrite (bind_Ok _ _ _ _ _ Hy).
  destruct (move_total (z_axis ax)
              (after (after (after w [GPIO_output SLEEP GPIO.HIGH]) ex) ey))
    as (z & ez & Hz & Hzs & Hzd & _).
  rewrite (bind_Ok _ _ _ _ _ Hz).
  destruct (move_total (a_axis ax)
              (after (after (after (after w [GPIO_output SLEEP GPIO.HIGH]) ex)
                        ey) ez))
    as (a & ea & Ha & Has & Had & _).
  rewrite (bind_Ok _ _ _ _ _ Ha).
  destruct (move_total (b_axis ax)
              (after (after (after (after (after w
                 [GPIO_output SLEEP GPIO.HIGH]) ex) ey) ez) ea))
    as (b & eb & Hb & Hbs & Hbd & _).
  rewrite (bind_Ok _ _ _ _ _ Hb).
  unfold Axis.pulse_low.
  repeat (rewrite (bind_Ok _ _ _ _ _ (emit_Ok _ _))).
  unfold ret. rewrite !after_after.
  exists {| x_axis := x; y_axis := y; z_axis := z; a_axis := a; b_axis := b |},
         (ex ++ ey ++ ez ++ ea ++ eb).
  unfold step_pins, dir_pins, Axes_list.
  cbn [x_axis y_axis z_axis a_axis b_axis List.map].
  rewrite Hxs, Hys, Hzs, Has, Hbs, Hxd, Hyd, Hzd, Had, Hbd.
  repeat split. do 2 f_equal. f_equal.
  cbn [app]. f_equal. rewrite <- !app_assoc. reflexivity.
Qed.
End DriveFacts.

(** ** The loop: wiring and totality *)

Section LoopFacts.
Local Open Scope Q_scope.

Lemma run_body_unfold (ax ax1 : Axes) (w w1 : World) :
  run_ingest ax w = Ok (ax1, w1) -> run_body ax w = run_drive ax1 w1.
Proof. intros H. unfold run_body. apply (bind_Ok _ _ _ _ _ H). Qed.

Lemma run_drive_wired (ax ax' : Axes) (w w' : World) :
  run_drive ax w = Ok (ax', w') ->
  step_pins ax' = step_pins ax /\ dir_pins ax' = dir_pins ax.
Proof.
  destruct (is_in_position_total (Axes_list ax)) as [[|] Hin].
  - rewrite (run_drive_idle _ _ Hin). intros H. inversion H. auto.
  - destruct (run_drive_move ax w Hin) as (ax2 & moves & -> & Hs & Hd).
    intros H. inversion H. subst. auto.
Qed.

Lemma run_body_wired (ax ax' : Axes) (w w' : World) :
  wired ax -> run_body ax w = Ok (ax', w') -> wired ax'.
Proof.
  intros [Hs Hd] H. unfold run_body in H.
  apply bind_inv in H as (ax1 & w1 & Hi & H).
  apply run_ingest_quiet in Hi as (_ & Hs1 & Hd1).
  apply run_drive_wired in H as [Hs2 Hd2].
  split; congruence.
Qed.

(** Every state the loop of [run] reaches is wired as [run] wired it. *)
Lemma run_wired (n : nat) (w w' : World) (ax : Axes) :
  run n w = Ok (ax, w') -> wired ax.
Proof.
  unfold run. intros H. apply bind_inv in H as ([] & w0 & _ & H).
  assert (Hinit : wired run_axes) by (split; reflexivity).
  revert H Hinit. generalize run_axes as ax0. revert w0.
  induction n as [| n IH]; intros w0 ax0 H Hw; cbn [run_loop] in H.
  - inversion H. subst. exact Hw.
  - apply bind_inv in H as (ax1 & w1 & Hb & H).
    apply (IH w1 ax1 H). apply (run_body_wired _ _ _ _ Hw Hb).
Qed.

(** With the five targets present, an iteration returns. *)
Lemma run_body_total (ax : Axes) (w : World) (tx ty tz ta tb : Q) :
  targets (data w) !! "x" = Some tx ->
  targets (data w) !! "y" = Some ty ->
  targets (data w) !! "z" = Some tz ->
  targets (data w) !! "a" = Some ta ->
  targets (data w) !! "b" = Some tb ->
  exists ax' w', run_body ax w = Ok (ax', w').
Proof.
  intros Hx Hy Hz Ha Hb.
  assert (Hi : exists ax1 w1, run_ingest ax w = Ok (ax1, w1)).
  { destruct (zero_cmd (data w)) eqn:Hzero.
    - eexists _, _. apply (run_ingest_zero ax w tx ty tz ta tb); assumption.
    - eexists _, _. apply (run_ingest_plain ax w tx ty tz ta tb); assumption. }
  destruct Hi as (ax1 & w1 & Hi). rewrite (run_body_unfold _ _ _ _ Hi).
  destruct (is_in_position_total (Axes_list ax1)) as [[|] Hin].
  - rewrite (run_drive_idle _ _ Hin). eauto.
  - destruct (run_drive_move ax1 w1 Hin) as (ax2 & moves & -> & _). eauto.
Qed.

Lemma wired_step_pins (ax : Axes) :
  wired ax -> step_pins ax = [STEP_X; STEP_Y; STEP_Z; STEP_A; STEP_B].
Proof. intros [Hs _]. exact Hs. Qed.

Lemma wired_dir_pins (ax : Axes) :
  wired ax -> dir_pins ax = [DIR_X; DIR_Y; DIR_Z; DIR_A; DIR_B].
Proof. intros [_ Hd]. exact Hd. Qed.

Lemma sleep_not_step_pin (ax : Axes) : wired ax -> ~ In SLEEP (step_pins ax).
Proof.
  intros Hw. rewrite (wired_step_pins _ Hw). cbn [In].
  intros [H | [H | [H | [H | [H | []]]]]]; discriminate H.
Qed.
End LoopFacts.

Section ControllerClaims.
Local Open Scope Q_scope.

(** C1. Zero command, as the loop ingests it: from every state in which the
    zero flag is set and the command source holds a target for each of the
    five axes, the zero check leaves every axis with current position 0 and
    target position 0 and the flag false; the five target assignments of the
    same ingestion cycle then give each axis the command source's target for
    it, so after the whole cycle every axis has current position 0, its
    target position is the command source's value (0 when that value is 0),
    and the flag reads false. *)
Theorem zero_command_ingestion (ax : Axes) (w : World) (tx ty tz ta tb : Q) :
  zero_cmd (data w) = true ->
  targets (data w) !! "x" = Some tx ->
  targets (data w) !! "y" = Some ty ->
  targets (data w) !! "z" = Some tz ->
  targets (data w) !! "a" = Some ta ->
  targets (data w) !! "b" = Some tb ->
  (exists axes0 w0,
     zero_if_cmd (Axes_list ax) w = Ok (axes0, w0)
     /\ length axes0 = 5%nat
     /\ Forall (fun axis => Axis.current_position axis == 0
                            /\ Axis.target_position axis == 0) axes0
     /\ zero_cmd (data w0) = false)
  /\ (exists ax' w',
        run_ingest ax w = Ok (ax', w')
        /\ Forall (fun axis => Axis.current_position axis == 0)
                  (Axes_list ax')
        /\ List.map Axis.target_position (Axes_list ax') = [tx; ty; tz; ta; tb]
        /\ zero_cmd (data w') = false).
Proof.
  intros Hzero Hx Hy Hz Ha Hb. split.
  - eexists _, _. split; [apply (zero_if_cmd_set _ _ Hzero) |].
    repeat split. unfold Axes_list. cbn [List.map].
    repeat (constructor; [split; reflexivity |]). constructor.
  - eexists _, _.
    split; [apply (run_ingest_zero ax w tx ty tz ta tb); assumption |].
    repeat split. unfold Axes_list. cbn [x_axis y_axis z_axis a_axis b_axis].
    repeat (constructor; [reflexivity |]). constructor.
Qed.

Lemma zero_command_ingestion_witness :
  exists ax' w',
    run_ingest (sample_axes 1 2.5) (sample_world true 0) = Ok (ax', w')
    /\ Forall (fun axis => Axis.current_position axis == 0) (Axes_list ax')
    /\ List.map Axis.target_position (Axes_list ax') = [0; 0; 0; 0; 0]
    /\ zero_cmd (data w') = false.
Proof.
  apply (zero_command_ingestion (sample_axes 1 2.5) (sample_world true 0)
           0 0 0 0 0); reflexivity.
Defined.

(** C1, the zeroed targets do not survive the assignments: with every axis
    at 1 with target 2.5, the zero flag set and a command source that still
    asks for 2.5, one ingestion cycle leaves the target of the x axis at
    2.5, not at 0. *)
Lemma zero_command_target_counterexample :
  let ax := sample_axes 1 2.5 in
  let w := sample_world true 2.5 in
  Forall (fun axis => ~ Axis.current_position axis == 0
                      /\ ~ Axis.target_position axis == 0) (Axes_list ax)
  /\ zero_cmd (data w) = true
  /\ exists ax' w',
       run_ingest ax w = Ok (ax', w')
       /\ Axis.target_position (x_axis ax') = 2.5
       /\ ~ Axis.target_position (x_axis ax') == 0.
Proof.
  intros ax w. split; [| split].
  - repeat (constructor; [split; discriminate |]). constructor.
  - reflexivity.
  - eexists _, _. split; [vm_compute; reflexivity |].
    split; [reflexivity | discriminate].
Qed.

(** C6. Full move cycle: in every loop iteration in which, once the
    commands are ingested, at least one axis is out of position, the
    iteration returns and its events are, in order: the wake write (SLEEP
    pin HIGH), the writes of the five [move] calls, the dwell, a step-LOW
    write on each of the five axes in the order x, y, z, a, b (whether or
    not the axis moved), and the dwell. So the wake write comes before every
    step-HIGH write, and every axis gets its step signal set LOW. *)
Theorem move_cycle_wakes_then_pulses (ax ax1 : Axes) (w w1 : World) :
  wired ax ->
  run_ingest ax w = Ok (ax1, w1) ->
  is_in_position (Axes_list ax1) = Ok false ->
  exists ax2 w2 evs,
    run_body ax w = Ok (ax2, w2)
    /\ trace w2 = trace w ++ evs
    /\ (exists moves,
          evs = GPIO_output SLEEP GPIO.HIGH :: moves
                ++ time_sleep 0.00075
                :: [GPIO_output STEP_X GPIO.LOW; GPIO_output STEP_Y GPIO.LOW;
                    GPIO_output STEP_Z GPIO.LOW; GPIO_output STEP_A GPIO.LOW;
                    GPIO_output STEP_B GPIO.LOW]
                ++ [time_sleep 0.00075])
    /\ (forall pre p post,
          evs = pre ++ GPIO_output p GPIO.HIGH :: post ->
          In p (step_pins ax) ->
          In (GPIO_output SLEEP GPIO.HIGH) pre)
    /\ (forall p, In p (step_pins ax) -> In (GPIO_output p GPIO.LOW) evs).
Proof.
  intros Hw Hi Hin.
  destruct (run_ingest_quiet _ _ _ _ Hi) as (Htr & Hs1 & _).
  destruct (run_drive_move ax1 w1 Hin) as (ax2 & moves & Hrun & _).
  rewrite Hs1 in Hrun.
  eexists ax2, _, _. rewrite (run_body_unfold _ _ _ _ Hi).
  split; [exact Hrun |]. rewrite trace_after, Htr.
  split; [reflexivity |]. split; [| split].
  - exists moves. rewrite (wired_step_pins _ Hw). reflexivity.
  - intros [| e pre] p post Heq Hp; cbn [app] in Heq; inversion Heq; subst.
    + contradiction (sleep_not_step_pin _ Hw).
    + left. reflexivity.
  - intros p Hp. right. apply in_or_app. right. right.
    apply in_or_app. left.
    apply (in_map (fun p => GPIO_output p GPIO.LOW)), Hp.
Qed.

Lemma move_cycle_wakes_then_pulses_witness :
  exists ax2 w2 evs,
    run_body run_axes (sample_world false 1) = Ok (ax2, w2)
    /\ trace w2 = trace (sample_world false 1) ++ evs
    /\ (exists moves,
          evs = GPIO_output SLEEP GPIO.HIGH :: moves
                ++ time_sleep 0.00075
                :: [GPIO_output STEP_X GPIO.LOW; GPIO_output STEP_Y GPIO.LOW;
                    GPIO_output STEP_Z GPIO.LOW; GPIO_output STEP_A GPIO.LOW;
                    GPIO_output STEP_B GPIO.LOW]
                ++ [time_sleep 0.00075])
    /\ (forall pre p post,
          evs = pre ++ GPIO_output p GPIO.HIGH :: post ->
          In p (step_pins run_axes) ->
          In (GPIO_output SLEEP GPIO.HIGH) pre)
    /\ (forall p, In p (step_pins run_axes) ->
                  In (GPIO_output p GPIO.LOW) evs).
Proof.
  eapply (move_cycle_wakes_then_pulses run_axes _ (sample_world false 1)).
  - split; reflexivity.
  - vm_compute. reflexivity.
  - vm_compute. reflexivity.
Defined.

(** C7. Full idle cycle: in every loop iteration in which, once the
    commands are ingested, all five axes are in position, the iteration
    returns with the axes as ingestion left them, and its only event is the
    sleep write (SLEEP pin LOW): no step or direction pin of any axis is
    written and no dwell elapses. *)
Theorem idle_cycle_only_sleeps (ax ax1 : Axes) (w w1 : World) :
  wired ax ->
  run_ingest ax w = Ok (ax1, w1) ->
  is_in_position (Axes_list ax1) = Ok true ->
  exists w2 evs,
    run_body ax w = Ok (ax1, w2)
    /\ trace w2 = trace w ++ evs
    /\ data w2 = data w1
    /\ evs = [GPIO_output SLEEP GPIO.LOW]
    /\ forallb (fun e => negb (writes_to (step_pins ax ++ dir_pins ax) e)
                         && negb (is_delay e)) evs = true.
Proof.
  intros Hw Hi Hin.
  destruct (run_ingest_quiet _ _ _ _ Hi) as (Htr & _ & _).
  eexists _, _. rewrite (run_body_unfold _ _ _ _ Hi).
  split; [apply (run_drive_idle _ _ Hin) |]. rewrite trace_after, Htr.
  split; [reflexivity |]. split; [reflexivity |]. split; [reflexivity |].
  rewrite (wired_step_pins _ Hw), (wired_dir_pins _ Hw). reflexivity.
Qed.

Lemma idle_cycle_only_sleeps_witness :
  exists w2 evs,
    run_body (sample_axes 1 0.5) (sample_world false 1)
    = Ok (sample_axes 1 1, w2)
    /\ trace w2 = trace (sample_world false 1) ++ evs
    /\ data w2 = data (sample_world false 1)
    /\ evs = [GPIO_output SLEEP GPIO.LOW]
    /\ forallb (fun e => negb (writes_to (step_pins (sample_axes 1 0.5)
                                          ++ dir_pins (sample_axes 1 0.5)) e)
                         && negb (is_delay e)) evs = true.
Proof.
  apply (idle_cycle_only_sleeps (sample_axes 1 0.5) (sample_axes 1 1)
           (sample_world false 1) (sample_world false 1)).
  - split; reflexivity.
  - reflexivity.
  - reflexivity.
Defined.
End ControllerClaims.

(** * Further properties of the code *)

(** ** Position: steps and the derived comparisons *)

Section PositionOrder.
Local Open Scope Q_scope.
Import Position.



(** The tolerant less-than is a strict order: no Position is less than
    itself, two Positions are never less than each other, and less-than is
    transitive. *)
Theorem Position_lt_strict_order (p q r : Position.t) :
  __lt__ p (VPosition p) = Ok false
  /\ (__lt__ p (VPosition q) = Ok true -> __lt__ q (VPosition p) = Ok false)
  /\ (__lt__ p (VPosition q) = Ok true -> __lt__ q (VPosition r) = Ok true ->
      __lt__ p (VPosition r) = Ok true).
Proof.
  split; [| split].
  - apply lt_false_iff. step_arith.
  - intros H. apply lt_true_iff in H. apply lt_false_iff. step_arith.
  - intros Hpq Hqr. apply lt_true_iff in Hpq, Hqr. apply lt_true_iff.
    step_arith.
Qed.

Lemma Position_lt_strict_order_witness :
  __lt__ {| pos := 0 |} (VPosition {| pos := 2 |}) = Ok true.
Proof.
  destruct (Position_lt_strict_order {| pos := 0 |} {| pos := 1 |}
              {| pos := 2 |}) as (_ & _ & Htrans).
  apply Htrans; reflexivity.
Defined.


End PositionOrder.

(** ** Axis: how [move] closes the gap *)

Section AxisSteps.
Local Open Scope Q_scope.
Import Position.

Implicit Types self : Axis.t.






(** Stability: on an axis that is in position, any number of calls of
    [move] changes neither the axis nor the world. *)
Theorem move_n_in_position_is_identity (n : nat) self w :
  Axis.is_in_position self = Ok true -> move_n n self w = Ok (self, w).
Proof.
  intros Hin. induction n as [| n IH]; cbn [move_n]; [reflexivity |].
  rewrite (bind_Ok _ _ _ _ _ (move_hold _ w Hin)). exact IH.
Qed.

Lemma move_n_in_position_is_identity_witness :
  move_n 7 (displaced 1 1.005 (x_axis run_axes)) (sample_world false 1)
  = Ok (displaced 1 1.005 (x_axis run_axes), sample_world false 1).
Proof.
  apply (move_n_in_position_is_identity 7). reflexivity.
Defined.


End AxisSteps.

(** ** Axis: the approach does not reverse *)

Section AxisDirection.
Local Open Scope Q_scope.
Import Position.

Implicit Types self : Axis.t.




End AxisDirection.

(** ** The loop body in detail *)

Section DriveDetail.
Local Open Scope Q_scope.
Import Position.

Lemma bind_Raise {A B} (m : M A) (k : A -> M B) (w : World) (e : exn) :
  m w = Raise e -> bind m k w = Raise e.
Proof. unfold bind. intros ->. reflexivity. Qed.

(** What [move] does to an axis does not depend on the world. *)
Lemma move_uniform (self : Axis.t) :
  exists self' evs,
    moves_to self self' evs
    /\ Axis._step_pin self' = Axis._step_pin self
    /\ Axis._dir_pin self' = Axis._dir_pin self
    /\ Axis._target_position self' = Axis._target_position self
    /\ Forall (fun e => writes_to [Axis._dir_pin self; Axis._step_pin self] e
                        = true) evs.
Proof.
  destruct (move_cases self) as [H | [H | H]].
  - exists (Axis.with_current self (increment (Axis._current_position self))),
           (increase_events self).
    split; [intros w; apply (move_increase _ _ H) |]. repeat split.
    unfold increase_events.
    constructor; [| constructor; [| constructor]];
      cbn [writes_to existsb]; rewrite Z.eqb_refl;
      cbn [orb]; rewrite ?orb_true_r; reflexivity.
  - exists (Axis.with_current self (decrement (Axis._current_position self))),
           (decrease_events self).
    split; [intros w; apply (move_decrease _ _ H) |]. repeat split.
    unfold decrease_events.
    constructor; [| constructor; [| constructor]];
      cbn [writes_to existsb]; rewrite Z.eqb_refl;
      cbn [orb]; rewrite ?orb_true_r; reflexivity.
  - exists self, [].
    split; [intros w; rewrite after_nil; apply (move_hold _ _ H) |].
    repeat split. constructor.
Qed.


(** The moving branch with what each [move] did. *)
Lemma run_drive_moving (ax : Axes) (w : World) :
  is_in_position (Axes_list ax) = Ok false ->
  exists x y z a b ex ey ez ea eb,
    moves_to (x_axis ax) x ex /\ moves_to (y_axis ax) y ey
    /\ moves_to (z_axis ax) z ez /\ moves_to (a_axis ax) a ea
    /\ moves_to (b_axis ax) b eb
    /\ run_drive ax w
       = Ok ({| x_axis := x; y_axis := y; z_axis := z; a_axis := a;
                b_axis := b |},
             after w (GPIO_output SLEEP GPIO.HIGH
                      :: (ex ++ ey ++ ez ++ ea ++ eb)
                      ++ time_sleep 0.00075
                      :: List.map (fun p => GPIO_output p GPIO.LOW)
                                  (step_pins ax)
                      ++ [time_sleep 0.00075])).
Proof.
  intros Hin.
  destruct (move_uniform (x_axis ax)) as (x & ex & Hx & Hxs & _).
  destruct (move_uniform (y_axis ax)) as (y & ey & Hy & Hys & _).
  destruct (move_uniform (z_axis ax)) as (z & ez & Hz & Hzs & _).
  destruct (move_uniform (a_axis ax)) as (a & ea & Ha & Has & _).
  destruct (move_uniform (b_axis ax)) as (b & eb & Hb & Hbs & _).
  exists x, y, z, a, b, ex, ey, ez, ea, eb.
  repeat (split; [assumption |]).
  unfold run_drive.
  rewrite (bind_Ok _ _ w w false) by (unfold lift; rewrite Hin; reflexivity).
  cbn [negb]. unfold wake_up.
  rewrite (bind_Ok _ _ _ _ _ (emit_Ok _ _)).
  rewrite (bind_Ok _ _ _ _ _ (Hx _)), (bind_Ok _ _ _ _ _ (Hy _)),
    (bind_Ok _ _ _ _ _ (Hz _)), (bind_Ok _ _ _ _ _ (Ha _)),
    (bind_Ok _ _ _ _ _ (Hb _)).
  unfold Axis.pulse_low.
  repeat (rewrite (bind_Ok _ _ _ _ _ (emit_Ok _ _))).
  unfold ret. rewrite !after_after.
  unfold step_pins, Axes_list. cbn [List.map].
  rewrite Hxs, Hys, Hzs, Has, Hbs.
  do 2 f_equal. f_equal. cbn [app]. f_equal.
  rewrite <- !app_assoc. reflexivity.
Qed.

End DriveDetail.

(** ** The zero check, the position check and the command source *)

Section CommandSource.
Local Open Scope Q_scope.
Import Position.

(** The zero command is consumed once: [zero_if_cmd] always returns with
    the flag false, the targets of the command source and the trace
    untouched and as many axes as it was given; calling it again on its own
    result changes nothing; and with the flag unset the first call already
    changes nothing. *)
Theorem zero_if_cmd_one_shot (axes : list Axis.t) (w : World) :
  exists axes' w',
    zero_if_cmd axes w = Ok (axes', w')
    /\ zero_cmd (data w') = false
    /\ targets (data w') = targets (data w)
    /\ trace w' = trace w
    /\ length axes' = length axes
    /\ zero_if_cmd axes' w' = Ok (axes', w')
    /\ (zero_cmd (data w) = false -> axes' = axes /\ w' = w).
Proof.
  destruct (zero_cmd (data w)) eqn:Hz.
  - eexists _, _. split; [apply (zero_if_cmd_set _ _ Hz) |].
    cbn [data zero_cmd targets trace]. rewrite length_map.
    repeat split; try discriminate.
  - exists axes, w. rewrite (zero_if_cmd_unset _ _ Hz). repeat split.
    exact Hz.
Qed.

Lemma zero_if_cmd_one_shot_witness :
  zero_if_cmd (Axes_list (sample_axes 1 2.5)) (sample_world false 2.5)
  = Ok (Axes_list (sample_axes 1 2.5), sample_world false 2.5).
Proof.
  destruct (zero_if_cmd_one_shot (Axes_list (sample_axes 1 2.5))
              (sample_world false 2.5))
    as (axes' & w' & Hrun & _ & _ & _ & _ & _ & Hsame).
  destruct Hsame as [-> ->]; [reflexivity | exact Hrun].
Defined.


Lemma get_target_None (key : string) (w : World) :
  targets (data w) !! key = None -> get_target key w = Raise (KeyError key).
Proof. unfold get_target. intros ->. reflexivity. Qed.

Lemma zero_if_cmd_targets (axes : list Axis.t) (w : World) :
  exists axes' w',
    zero_if_cmd axes w = Ok (axes', w')
    /\ targets (data w') = targets (data w)
    /\ zero_cmd (data w') = false
    /\ trace w' = trace w.
Proof.
  destruct (zero_cmd (data w)) eqn:Hz.
  - eexists _, _. split; [apply (zero_if_cmd_set _ _ Hz) |]. repeat split.
  - exists axes, w. rewrite (zero_if_cmd_unset _ _ Hz). repeat split.
    exact Hz.
Qed.

(** Ingestion stops at the first axis without a target. *)
Lemma run_ingest_result (ax : Axes) (w : World) :
  match first_missing (targets (data w)) with
  | Some key => run_ingest ax w = Raise (KeyError key)
  | None =>
      exists ax1 w1,
        run_ingest ax w = Ok (ax1, w1)
        /\ targets (data w1) = targets (data w)
        /\ zero_cmd (data w1) = false
  end.
Proof.
  unfold run_ingest, first_missing, axis_names. cbn [List.find].
  destruct (zero_if_cmd_targets (Axes_list ax) w)
    as (axes & w0 & Hzero & Ht & Hflag & _).
  rewrite (bind_Ok _ _ _ _ _ Hzero).
  destruct (targets (data w) !! "x") as [tx |] eqn:Ex;
    [| apply bind_Raise, get_target_None; rewrite Ht; exact Ex].
  rewrite <- Ht in Ex. rewrite (bind_Ok _ _ _ _ _ (get_target_Ok _ _ _ Ex)).
  cbv zeta.
  destruct (targets (data w) !! "y") as [ty |] eqn:Ey;
    [| apply bind_Raise, get_target_None; rewrite Ht; exact Ey].
  rewrite <- Ht in Ey. rewrite (bind_Ok _ _ _ _ _ (get_target_Ok _ _ _ Ey)).
  cbv zeta.
  destruct (targets (data w) !! "z") as [tz |] eqn:Ez;
    [| apply bind_Raise, get_target_None; rewrite Ht; exact Ez].
  rewrite <- Ht in Ez. rewrite (bind_Ok _ _ _ _ _ (get_target_Ok _ _ _ Ez)).
  cbv zeta.
  destruct (targets (data w) !! "a") as [ta |] eqn:Ea;
    [| apply bind_Raise, get_target_None; rewrite Ht; exact Ea].
  rewrite <- Ht in Ea. rewrite (bind_Ok _ _ _ _ _ (get_target_Ok _ _ _ Ea)).
  cbv zeta.
  destruct (targets (data w) !! "b") as [tb |] eqn:Eb;
    [| apply bind_Raise, get_target_None; rewrite Ht; exact Eb].
  rewrite <- Ht in Eb. rewrite (bind_Ok _ _ _ _ _ (get_target_Ok _ _ _ Eb)).
  cbv zeta. eexists _, _. split; [reflexivity |]. split; assumption.
Qed.

Lemma run_drive_data (ax ax' : Axes) (w w' : World) :
  run_drive ax w = Ok (ax', w') -> data w' = data w.
Proof.
  destruct (is_in_position_total (Axes_list ax)) as [[|] Hin].
  - rewrite (run_drive_idle _ _ Hin). intros H. inversion H. reflexivity.
  - destruct (run_drive_move ax w Hin) as (ax2 & moves & -> & _).
    intros H. inversion H. reflexivity.
Qed.



(** The controller only consumes the command source: after an iteration
    that returns, the targets are what they were and the zero flag is
    false, whether or not it was set. *)
Theorem run_body_command_source (ax ax' : Axes) (w w' : World) :
  run_body ax w = Ok (ax', w') ->
  targets (data w') = targets (data w) /\ zero_cmd (data w') = false.
Proof.
  intros H. pose proof (run_ingest_result ax w) as Hi.
  destruct (first_missing (targets (data w))) as [key |].
  - unfold run_body in H. rewrite (bind_Raise _ _ _ _ Hi) in H. discriminate.
  - destruct Hi as (ax1 & w1 & Hi & Ht & Hz).
    rewrite (run_body_unfold _ _ _ _ Hi) in H.
    apply run_drive_data in H. rewrite H. auto.
Qed.

Lemma run_body_command_source_witness :
  exists ax' w',
    run_body (sample_axes 1 2.5) (sample_world true 2.5) = Ok (ax', w')
    /\ targets (data w') = uniform_targets 2.5
    /\ zero_cmd (data w') = false.
Proof.
  eexists _, _. split; [vm_compute; reflexivity |].
  eapply (run_body_command_source (sample_axes 1 2.5) _
            (sample_world true 2.5)).
  vm_compute. reflexivity.
Defined.

(** The loop never rewires an axis: after any number of iterations from
    any axes, the step pin and the direction pin of every axis are the ones
    it started with. *)
Theorem run_loop_keeps_wiring (n : nat) :
  forall (ax ax' : Axes) (w w' : World),
    run_loop n ax w = Ok (ax', w') ->
    step_pins ax' = step_pins ax /\ dir_pins ax' = dir_pins ax.
Proof.
  induction n as [| n IH]; intros ax ax' w w' H; cbn [run_loop] in H.
  - inversion H. auto.
  - apply bind_inv in H as (ax1 & w1 & Hb & H).
    unfold run_body in Hb. apply bind_inv in Hb as (ax0 & w0 & Hi & Hd).
    apply run_ingest_quiet in Hi as (_ & Hs0 & Hd0).
    apply run_drive_wired in Hd as [Hs1 Hd1].
    apply IH in H as [Hs Hdir]. split; congruence.
Qed.

Lemma run_loop_keeps_wiring_witness :
  exists ax' w',
    run_loop 3 run_axes (sample_world true 1) = Ok (ax', w')
    /\ step_pins ax' = step_pins run_axes
    /\ dir_pins ax' = dir_pins run_axes.
Proof.
  eexists _, _. split; [vm_compute; reflexivity |].
  eapply (run_loop_keeps_wiring 3 run_axes _ (sample_world true 1)).
  vm_compute. reflexivity.
Defined.
End CommandSource.

(** ** The events of the loop *)

Section LoopEvents.
Local Open Scope Q_scope.
Import Position.

Lemma moves_to_unique (self s1 s2 : Axis.t) (e1 e2 : list event) :
  moves_to self s1 e1 -> moves_to self s2 e2 -> s1 = s2 /\ e1 = e2.
Proof.
  intros H1 H2.
  pose proof (H1 {| trace := []; data := {| zero_cmd := false;
                                            targets := ∅ |} |}) as E1.
  rewrite H2 in E1. inversion E1. auto.
Qed.

Lemma moves_to_writes (self self' : Axis.t) (evs : list event) :
  moves_to self self' evs ->
  Axis._step_pin self' = Axis._step_pin self
  /\ Axis._dir_pin self' = Axis._dir_pin self
  /\ Axis._target_position self' = Axis._target_position self
  /\ Forall (fun e => writes_to [Axis._dir_pin self; Axis._step_pin self] e
                      = true) evs.
Proof.
  intros H. destruct (move_uniform self) as (s & e & Hm & Hfacts).
  destruct (moves_to_unique _ _ _ _ _ H Hm) as [-> ->]. exact Hfacts.
Qed.

Lemma writes_to_incl (ps qs : list Z) (e : event) :
  (forall c, In c ps -> In c qs) ->
  writes_to ps e = true -> writes_to qs e = true.
Proof.
  intros Hincl. destruct e; cbn [writes_to]; try discriminate.
  rewrite !existsb_exists. intros (c & Hc & Heq). exists c. auto.
Qed.

Lemma Forall_writes_to_incl (ps qs : list Z) (evs : list event) :
  (forall c, In c ps -> In c qs) ->
  Forall (fun e => writes_to ps e = true) evs ->
  Forall (fun e => writes_to qs e = true) evs.
Proof.
  intros Hincl H. eapply Forall_impl; [exact H |].
  intros e. apply writes_to_incl, Hincl.
Qed.

(** The moving branch with the channels that the [move] calls write. *)
Lemma run_drive_moving_events (ax : Axes) (w : World) :
  is_in_position (Axes_list ax) = Ok false ->
  exists ax' moves,
    run_drive ax w
    = Ok (ax', after w (GPIO_output SLEEP GPIO.HIGH :: moves
                        ++ time_sleep 0.00075
                        :: List.map (fun p => GPIO_output p GPIO.LOW)
                                    (step_pins ax)
                        ++ [time_sleep 0.00075]))
    /\ Forall (fun e => writes_to (step_pins ax ++ dir_pins ax) e = true)
              moves.
Proof.
  intros Hin.
  destruct (run_drive_moving ax w Hin)
    as (x & y & z & a & b & ex & ey & ez & ea & eb
        & Hx & Hy & Hz & Ha & Hb & Hrun).
  eexists _, _. split; [exact Hrun |].
  apply moves_to_writes in Hx as (_ & _ & _ & Hx).
  apply moves_to_writes in Hy as (_ & _ & _ & Hy).
  apply moves_to_writes in Hz as (_ & _ & _ & Hz).
  apply moves_to_writes in Ha as (_ & _ & _ & Ha).
  apply moves_to_writes in Hb as (_ & _ & _ & Hb).
  unfold step_pins, dir_pins, Axes_list. cbn [List.map app].
  repeat (apply Forall_app; split);
    match goal with
    | H : Forall _ ?evs |- Forall _ ?evs =>
        revert H; apply Forall_writes_to_incl; cbn [In]; intuition
    end.
Qed.

Lemma last_level_app (c : Z) (l1 l2 : list event) :
  last_level c (l1 ++ l2)
  = match last_level c l2 with
    | Some level => Some level
    | None => last_level c l1
    end.
Proof.
  induction l1 as [| e l1 IH]; cbn [app last_level].
  - destruct (last_level c l2); reflexivity.
  - rewrite IH. destruct (last_level c l2); reflexivity.
Qed.

Lemma last_level_elsewhere (c : Z) (pins : list Z) (evs : list event) :
  ~ In c pins ->
  Forall (fun e => writes_to pins e = true) evs ->
  last_level c evs = None.
Proof.
  intros Hc. induction 1 as [| e evs He _ IH]; cbn [last_level];
    [reflexivity |].
  rewrite IH. destruct e; try reflexivity. cbn [writes_to] in He.
  apply existsb_exists in He as (c' & Hin & Heq). apply Z.eqb_eq in Heq.
  subst c'. destruct (Z.eqb_spec channel c); [subst; contradiction |].
  reflexivity.
Qed.

Lemma outputs_configured_loop (seen : list Z) (evs : list event) :
  (forall c, In c run_channels -> In c seen) ->
  Forall (fun e => loop_event e = true) evs ->
  outputs_configured seen evs = true.
Proof.
  intros Hseen. induction 1 as [| e evs He _ IH]; cbn [outputs_configured];
    [reflexivity |].
  destruct e; try discriminate He; [| exact IH].
  rewrite IH, andb_true_r. unfold loop_event in He.
  cbn [writes_to is_delay] in He. rewrite orb_false_r in He.
  apply existsb_exists in He as (c & Hin & Heq).
  apply existsb_exists. exists c. auto.
Qed.

(** An iteration from wired axes emits only writes to the channels of
    [run] and dwells. *)
Lemma run_body_events (ax ax' : Axes) (w w' : World) :
  wired ax ->
  run_body ax w = Ok (ax', w') ->
  exists evs,
    trace w' = trace w ++ evs /\ Forall (fun e => loop_event e = true) evs.
Proof.
  intros Hw H. unfold run_body in H.
  apply bind_inv in H as (ax1 & w1 & Hi & H).
  apply run_ingest_quiet in Hi as (Htr & Hs & Hd).
  assert (Hs1 : step_pins ax1 = step_pins run_axes)
    by (rewrite Hs; apply Hw).
  assert (Hd1 : dir_pins ax1 = dir_pins run_axes)
    by (rewrite Hd; apply Hw).
  destruct (is_in_position_total (Axes_list ax1)) as [[|] Hin].
  - rewrite (run_drive_idle _ _ Hin) in H. inversion H. subst.
    exists [GPIO_output SLEEP GPIO.LOW]. rewrite trace_after, Htr.
    split; [reflexivity |]. repeat constructor.
  - destruct (run_drive_moving_events ax1 w1 Hin)
      as (ax2 & moves & Hrun & Hmoves).
    rewrite Hs1 in Hrun. rewrite Hs1, Hd1 in Hmoves.
    rewrite Hrun in H. inversion H. subst. eexists.
    rewrite trace_after, Htr. split; [reflexivity |].
    constructor; [reflexivity |]. apply Forall_app. split.
    + eapply Forall_impl; [exact Hmoves |]. intros e He.
      unfold loop_event. apply orb_true_intro. left. revert He.
      apply writes_to_incl. unfold run_channels. cbn [In]. intuition.
    + repeat constructor.
Qed.
End LoopEvents.

Section SignalSafety.
Local Open Scope Q_scope.

Lemma set_up_gpio_Ok (w : World) :
  set_up_gpio w
  = Ok (tt, after w [GPIO_setmode GPIO.BOARD;
                     GPIO_setup DIR_X GPIO.OUT; GPIO_setup STEP_X GPIO.OUT;
                     GPIO_setup DIR_Y GPIO.OUT; GPIO_setup STEP_Y GPIO.OUT;
                     GPIO_setup DIR_Z GPIO.OUT; GPIO_setup STEP_Z GPIO.OUT;
                     GPIO_setup STEP_A GPIO.OUT; GPIO_setup DIR_A GPIO.OUT;
                     GPIO_setup STEP_B GPIO.OUT; GPIO_setup DIR_B GPIO.OUT;
                     GPIO_setup SLEEP GPIO.OUT]).
Proof.
  unfold set_up_gpio.
  repeat (rewrite (bind_Ok _ _ _ _ _ (emit_Ok _ _))).
  rewrite emit_Ok, !after_after. reflexivity.
Qed.

Lemma run_loop_events (n : nat) :
  forall (ax ax' : Axes) (w w' : World),
    wired ax ->
    run_loop n ax w = Ok (ax', w') ->
    exists evs,
      trace w' = trace w ++ evs /\ Forall (fun e => loop_event e = true) evs.
Proof.
  induction n as [| n IH]; intros ax ax' w w' Hw H; cbn [run_loop] in H.
  - inversion H. subst. exists []. rewrite app_nil_r. split; constructor.
  - apply bind_inv in H as (ax1 & w1 & Hb & H).
    destruct (run_body_events _ _ _ _ Hw Hb) as (e1 & Ht1 & He1).
    apply (run_body_wired _ _ _ _ Hw) in Hb.
    destruct (IH _ _ _ _ Hb H) as (e2 & Ht2 & He2).
    exists (e1 ++ e2). rewrite Ht2, Ht1, app_assoc. split; [reflexivity |].
    apply Forall_app. auto.
Qed.

(** [run] never writes a channel it has not set up: in the events of the
    set-up followed by any number of loop iterations, every [GPIO.output]
    goes to a channel that an earlier [GPIO.setup] made an output. *)
Theorem run_outputs_configured (n : nat) (ax : Axes) (w w' : World) :
  run n w = Ok (ax, w') ->
  exists evs,
    trace w' = trace w ++ evs /\ outputs_configured [] evs = true.
Proof.
  unfold run. intros H.
  rewrite (bind_Ok _ _ _ _ _ (set_up_gpio_Ok w)) in H.
  assert (Hinit : wired run_axes) by (split; reflexivity).
  destruct (run_loop_events n _ _ _ _ Hinit H) as (evs & Ht & Hev).
  eexists. rewrite Ht, trace_after, <- app_assoc. split; [reflexivity |].
  cbn [app outputs_configured]. apply outputs_configured_loop; [| exact Hev].
  intros c Hc. cbv in Hc |- *. intuition.
Qed.

Lemma run_outputs_configured_witness :
  exists ax w' evs,
    run 3 (sample_world true 1) = Ok (ax, w')
    /\ trace w' = trace (sample_world true 1) ++ evs
    /\ outputs_configured [] evs = true.
Proof.
  assert (Hrun : exists ax w', run 3 (sample_world true 1) = Ok (ax, w'))
    by (eexists _, _; vm_compute; reflexivity).
  destruct Hrun as (ax & w' & Hrun).
  destruct (run_outputs_configured 3 ax (sample_world true 1) w' Hrun)
    as (evs & Ht & Hc).
  exists ax, w', evs. auto.
Defined.

(** The lines at the end of an iteration. From wired axes, an iteration
    whose ingestion returns also returns; the sleep line was last written
    LOW if the axes were in position and HIGH otherwise; and no step line is
    left HIGH: after a moving iteration every step channel was last written
    LOW, and an idle iteration leaves each as it was. *)
Theorem run_body_line_levels (ax ax1 : Axes) (w w1 : World) :
  wired ax ->
  run_ingest ax w = Ok (ax1, w1) ->
  exists (b : bool) ax' w',
    is_in_position (Axes_list ax1) = Ok b
    /\ run_body ax w = Ok (ax', w')
    /\ last_level SLEEP (trace w')
       = Some (if b then GPIO.LOW else GPIO.HIGH)
    /\ Forall (fun p => last_level p (trace w')
                        = if b then last_level p (trace w)
                          else Some GPIO.LOW)
              (step_pins ax).
Proof.
  intros Hw Hi. rewrite (run_body_unfold _ _ _ _ Hi).
  destruct (run_ingest_quiet _ _ _ _ Hi) as (Htr & Hs & Hd).
  assert (Hs1 : step_pins ax1 = [STEP_X; STEP_Y; STEP_Z; STEP_A; STEP_B])
    by (rewrite Hs; apply wired_step_pins, Hw).
  assert (Hd1 : dir_pins ax1 = [DIR_X; DIR_Y; DIR_Z; DIR_A; DIR_B])
    by (rewrite Hd; apply wired_dir_pins, Hw).
  rewrite (wired_step_pins _ Hw).
  destruct (is_in_position_total (Axes_list ax1)) as [[|] Hin].
  - exists true, ax1, (after w1 [GPIO_output SLEEP GPIO.LOW]).
    split; [exact Hin |]. split; [apply (run_drive_idle _ _ Hin) |].
    rewrite trace_after, Htr.
    split; [rewrite last_level_app; reflexivity |].
    repeat (constructor; [rewrite last_level_app; reflexivity |]).
    constructor.
  - destruct (run_drive_moving_events ax1 w1 Hin)
      as (ax2 & moves & Hrun & Hmoves).
    rewrite Hs1, Hd1 in Hmoves. rewrite Hs1 in Hrun.
    exists false, ax2. eexists. split; [exact Hin |].
    split; [exact Hrun |]. rewrite trace_after, Htr.
    change (GPIO_output SLEEP GPIO.HIGH :: moves ++ ?tail)
      with ([GPIO_output SLEEP GPIO.HIGH] ++ moves ++ tail).
    split.
    + assert (Hno : ~ In SLEEP ([STEP_X; STEP_Y; STEP_Z; STEP_A; STEP_B]
                                ++ [DIR_X; DIR_Y; DIR_Z; DIR_A; DIR_B]))
        by (cbv; intuition discriminate).
      rewrite !last_level_app, (last_level_elsewhere _ _ _ Hno Hmoves).
      reflexivity.
    + repeat (constructor; [rewrite !last_level_app; reflexivity |]).
      constructor.
Qed.

Lemma run_body_line_levels_witness :
  exists (b : bool) ax' w',
    is_in_position (Axes_list (sample_axes 0 1)) = Ok b
    /\ run_body (sample_axes 0 0) (sample_world false 1) = Ok (ax', w')
    /\ last_level SLEEP (trace w') = Some (if b then GPIO.LOW else GPIO.HIGH)
    /\ Forall (fun p => last_level p (trace w')
                        = if b then last_level p (trace (sample_world false 1))
                          else Some GPIO.LOW)
              (step_pins (sample_axes 0 0)).
Proof.
  apply (run_body_line_levels (sample_axes 0 0) (sample_axes 0 1)
           (sample_world false 1) (sample_world false 1)).
  - split; reflexivity.
  - reflexivity.
Defined.
End SignalSafety.

(** ** The loop and the axes *)

Section LoopMotion.
Local Open Scope Q_scope.
Import Position.










End LoopMotion.
